(** * DiceFS: the randomized filesystem of [exist.py]

    A shallow embedding of the [Exist] operations class (module [exist.py])
    and the properties of its handlers.

    Layout:
    - [Float64]   IEEE binary64 values, as Python's [float] has them;
    - [PyStr]     the string operations the handlers use (slices, [float()],
                  [str()] of a float);
    - [Host]      the process environment the handlers read: the [random]
                  module, [time.time()], [os.getuid()], [os.getgid()];
    - [Fuse]      the result of a handler: a value or a raised [FuseOSError];
    - [Exist]     the handlers themselves, one definition per method;
    - the theorems. *)

From Stdlib Require Import ZArith List String Ascii Bool Lia.
From Stdlib Require Import Floats.SpecFloat.
Import ListNotations.
Local Open Scope string_scope.
Local Open Scope Z_scope.

(* ===================================================================== *)
(** ** Python floats: IEEE 754 binary64 *)
(* ===================================================================== *)

Module Float64.

Definition prec : Z := 53.
Definition emax : Z := 1024.

(** A Python [float]. Finite values are kept in canonical form
    (the mantissa has 53 bits, fewer for subnormal numbers), which is what
    the rounding functions of [SpecFloat] return. *)
Definition float : Type := spec_float.

Definition zero : float := S754_zero false.
Definition one : float := S754_finite false 4503599627370496 (-52).

(** Python's [x <= y], [x < y] and [x == y] on floats; every comparison
    with a NaN is false. *)
Definition le (x y : float) : bool := SFleb x y.
Definition lt (x y : float) : bool := SFltb x y.
Definition eqb (x y : float) : bool := SFeqb x y.

Definition add (x y : float) : float := SFadd prec emax x y.
Definition sub (x y : float) : float := SFsub prec emax x y.
Definition mul (x y : float) : float := SFmul prec emax x y.

(** The float nearest to the integer [m] times two to the [e]
    (round half to even); [of_Z m] is Python's [float(m)]. *)
Definition ldexp (m e : Z) : float := binary_normalize prec emax m e false.
Definition of_Z (m : Z) : float := ldexp m 0.

(** The float nearest to [(-1)^neg * m * 10^e], for [m >= 0]: the value a
    correctly rounded decimal-to-binary conversion gives to the digits [m]
    with the decimal exponent [e]. *)
Definition of_decimal (neg : bool) (m e : Z) : float :=
  match m with
  | Zpos p =>
      if 0 <=? e
      then binary_round prec emax neg (p * Z.to_pos (10 ^ e)) 0
      else SFdiv prec emax (S754_finite neg p 0)
                           (S754_finite false (Z.to_pos (10 ^ (- e))) 0)
  | _ => S754_zero neg
  end.

End Float64.

Import Float64.

(* ===================================================================== *)
(** ** Python strings *)
(* ===================================================================== *)

Module PyStr.

(** A Python [str] is modelled as a [string]: a sequence of characters
    with the code points 0 to 255. Paths with other characters are outside
    the model. *)

(** [s[:n]] and [s[n:]] for a non-negative [n]: a slice never raises, a
    string shorter than [n] gives itself, respectively the empty string. *)
Fixpoint slice_to (n : nat) (s : string) : string :=
  match n, s with
  | S n', String c s' => String c (slice_to n' s')
  | _, _ => EmptyString
  end.

Fixpoint slice_from (n : nat) (s : string) : string :=
  match n, s with
  | S n', String _ s' => slice_from n' s'
  | _, _ => s
  end.

Definition code (c : ascii) : Z := Z.of_nat (nat_of_ascii c).

Definition is_digit (c : ascii) : bool := (48 <=? code c) && (code c <=? 57).

(** White space that [float()] strips: tab, newline, vertical tab, form
    feed, carriage return and space; of the characters above 127, the
    next-line and no-break-space controls (U+0085, U+00A0). *)
Definition is_space (c : ascii) : bool :=
  ((9 <=? code c) && (code c <=? 13)) || (code c =? 32)
  || (code c =? 133) || (code c =? 160).

Definition lower (c : ascii) : ascii :=
  if (65 <=? code c) && (code c <=? 90)
  then ascii_of_nat (nat_of_ascii c + 32) else c.

Fixpoint lower_string (s : string) : string :=
  match s with
  | EmptyString => EmptyString
  | String c s' => String (lower c) (lower_string s')
  end.

Fixpoint rev_onto (s acc : string) : string :=
  match s with
  | EmptyString => acc
  | String c s' => rev_onto s' (String c acc)
  end.

Definition rev (s : string) : string := rev_onto s EmptyString.

Fixpoint lstrip (s : string) : string :=
  match s with
  | String c s' => if is_space c then lstrip s' else s
  | EmptyString => s
  end.

Definition strip (s : string) : string := rev (lstrip (rev (lstrip s))).

(** *** [float(s)] *)

(** Underscores in a numeric literal: one is accepted only between two
    digits, and the literal is read without them. [prev] is the character
    before [s], if any. *)
Fixpoint drop_underscores (prev : option ascii) (s : string) : option string :=
  match s with
  | EmptyString =>
      match prev with
      | Some "_"%char => None
      | _ => Some EmptyString
      end
  | String "_"%char s' =>
      match prev with
      | Some p => if is_digit p then drop_underscores (Some "_"%char) s' else None
      | None => None
      end
  | String c s' =>
      match prev with
      | Some "_"%char =>
          if is_digit c
          then option_map (String c) (drop_underscores (Some c) s')
          else None
      | _ => option_map (String c) (drop_underscores (Some c) s')
      end
  end.

(** An optional sign: whether it is a minus, and the rest. *)
Definition sign (s : string) : bool * string :=
  match s with
  | String "-"%char s' => (true, s')
  | String "+"%char s' => (false, s')
  | _ => (false, s)
  end.

(** The longest run of digits at the head of [s], read in base ten onto
    [acc]: the value, the number of digits read, the rest. *)
Fixpoint digits (acc : Z) (n : Z) (s : string) : Z * Z * string :=
  match s with
  | String c s' =>
      if is_digit c then digits (10 * acc + (code c - 48)) (n + 1) s'
      else (acc, n, s)
  | EmptyString => (acc, n, s)
  end.

(** What may follow the mantissa: nothing, or an exponent that is the
    whole rest of the string. *)
Definition exponent (s : string) : option Z :=
  match s with
  | EmptyString => Some 0
  | String c s' =>
      if (code c =? 101) || (code c =? 69)
      then
        let (neg, s1) := sign s' in
        let '(e, n, rest) := digits 0 0 s1 in
        match rest with
        | EmptyString => if n =? 0 then None else Some (if neg then - e else e)
        | _ => None
        end
      else None
  end.

(** A decimal literal: sign, digits with at most one point and at least
    one digit, exponent. The digits are read exactly, whatever their
    number, and rounded once, to the nearest float. *)
Definition decimal (s : string) : option float :=
  let (neg, s1) := sign s in
  let '(ip, ni, s2) := digits 0 0 s1 in
  let '(m, nf, s3) :=
    match s2 with
    | String "."%char t => digits ip 0 t
    | _ => (ip, 0, s2)
    end in
  if ni + nf =? 0 then None
  else option_map (fun e => of_decimal neg m (e - nf)) (exponent s3).

(** The special values, in any letter case. *)
Definition inf_or_nan (s : string) : option float :=
  let (neg, s1) := sign s in
  let w := lower_string s1 in
  if (w =? "inf")%string || (w =? "infinity")%string then Some (S754_infinity neg)
  else if (w =? "nan")%string then Some S754_nan
  else None.

(** [float(s)]: [None] stands for the [ValueError] the call raises. The
    string is read without its underscores and the white space around it,
    as a decimal literal or else as a special value; no string is both. *)
Definition float_of_string (s : string) : option float :=
  match drop_underscores None s with
  | None => None
  | Some s1 =>
      let t := strip s1 in
      match decimal t with
      | Some x => Some x
      | None => inf_or_nan t
      end
  end.

(** *** [str(x)] of a float

    [str] and [repr] of a float give the shortest decimal that reads back
    as the same float, laid out in positional notation when the decimal
    exponent is small and in scientific notation otherwise. *)

Definition digit_char (d : Z) : ascii := ascii_of_nat (Z.to_nat (48 + d)).

Fixpoint digits_onto (fuel : nat) (n : Z) (acc : string) : string :=
  match fuel with
  | O => acc
  | S fuel' =>
      let acc' := String (digit_char (n mod 10)) acc in
      if n <? 10 then acc' else digits_onto fuel' (n / 10) acc'
  end.

(** The decimal digits of [n >= 0], without leading zeros. *)
Definition string_of_Z (n : Z) : string :=
  digits_onto (S (Z.to_nat (Z.log2 n))) n EmptyString.

Fixpoint zeros (n : nat) : string :=
  match n with
  | O => EmptyString
  | S n' => String "0"%char (zeros n')
  end.

Definition rstrip_zeros (s : string) : string :=
  let fix go (r : string) : string :=
    match r with
    | String "0"%char r' => go r'
    | _ => r
    end in
  rev (go (rev s)).

(** [num / den < 10 ^ d], for positive [num] and [den]. *)
Definition below_pow10 (num den d : Z) : bool :=
  if 0 <=? d then num <? den * 10 ^ d else num * 10 ^ (- d) <? den.

(** The decimal point of [num / den]: the least [d] from [start] on with
    [num / den < 10 ^ d]. The search starts just under the decimal
    logarithm of a power of two that is below [num / den]. *)
Fixpoint decimal_point (fuel : nat) (num den start : Z) : Z :=
  match fuel with
  | O => start
  | S fuel' =>
      if below_pow10 num den start then start
      else decimal_point fuel' num den (start + 1)
  end.

(** The shortest digits for the positive float [m * 2^e]: for [n] from
    [17 - fuel + 1] on, the two [n]-digit decimals around the value are
    read back; the first [n] at which one of them gives the float wins,
    the nearer of the two if both do, the even one on a tie. The result is
    the digits as a number and the decimal exponent of its last digit. *)
Fixpoint shortest (fuel : nat) (m : positive) (e : Z) (num den decpt n : Z)
  : Z * Z :=
  let k := decpt - n in
  let N := if k <=? 0 then num * 10 ^ (- k) else num in
  let D := if k <=? 0 then den else den * 10 ^ k in
  let lo := N / D in
  let hi := lo + 1 in
  let back (d : Z) : bool :=
    match of_decimal false d k with
    | S754_finite false m' e' => Pos.eqb m m' && (e =? e')
    | _ => false
    end in
  match fuel with
  | O => (lo, k)
  | S fuel' =>
      if back lo then
        if back hi then
          match 2 * (N mod D) ?= D with
          | Lt => (lo, k)
          | Gt => (hi, k)
          | Eq => if Z.even lo then (lo, k) else (hi, k)
          end
        else (lo, k)
      else if back hi then (hi, k)
      else shortest fuel' m e num den decpt (n + 1)
  end.

Definition fixed_layout (ds : string) (decpt : Z) : string :=
  let n := Z.of_nat (String.length ds) in
  if decpt <=? 0 then "0." ++ zeros (Z.to_nat (- decpt)) ++ ds
  else if decpt <? n
  then slice_to (Z.to_nat decpt) ds ++ "." ++ slice_from (Z.to_nat decpt) ds
  else ds ++ zeros (Z.to_nat (decpt - n)) ++ ".0".

Definition exp_layout (ds : string) (decpt : Z) : string :=
  let e := decpt - 1 in
  match ds with
  | String c (String c' t) => String c ("." ++ String c' t)
  | _ => ds
  end
  ++ "e" ++ (if e <? 0 then "-" else "+")
  ++ (if Z.abs e <? 10 then "0" else "") ++ string_of_Z (Z.abs e).

Definition repr_finite (m : positive) (e : Z) : string :=
  let num := if 0 <=? e then Zpos m * 2 ^ e else Zpos m in
  let den := if 0 <=? e then 1 else 2 ^ (- e) in
  let l := Z.log2 num - Z.log2 den - 1 in
  let decpt := decimal_point 8 num den (l * 30103 / 100000 - 1) in
  let '(d, k) := shortest 17 m e num den decpt 1 in
  let full := string_of_Z d in
  let decpt' := k + Z.of_nat (String.length full) in
  let ds := rstrip_zeros full in
  if (decpt' <=? -4) || (16 <? decpt') then exp_layout ds decpt'
  else fixed_layout ds decpt'.

Definition float_repr (x : float) : string :=
  match x with
  | S754_nan => "nan"
  | S754_infinity s => if s then "-inf" else "inf"
  | S754_zero s => if s then "-0.0" else "0.0"
  | S754_finite s m e => (if s then "-" else "") ++ repr_finite m e
  end.

End PyStr.

Import PyStr.

(* ===================================================================== *)
(** ** The process environment *)
(* ===================================================================== *)

Module Host.

(** What the handlers read from the process they run in. The [random]
    module is one shared source: [entropy] is the sequence of values it
    will hand out and [draws] counts the calls made so far, one per call
    of a function of the module (how many words of its generator a call
    uses up is not modelled). Every sequence is possible, so a property
    proved for every [world] holds for every run of the generator.
    [time.time()] is read from [clock] in the same way. The user and group
    ids of the process do not change. *)
Record world : Type := World {
  entropy : nat -> Z;
  draws : nat;
  clock : nat -> float;
  clock_reads : nat;
  uid : Z;
  gid : Z
}.

Definition next_draw (w : world) : Z * world :=
  (entropy w (draws w),
   World (entropy w) (S (draws w)) (clock w) (clock_reads w) (uid w) (gid w)).

(** [random.random()]: a float [k / 2^53] with [0 <= k < 2^53]. *)
Definition random_random (w : world) : float * world :=
  let (k, w') := next_draw w in (ldexp (k mod 2 ^ 53) (-53), w').

(** [random.randint(a, b)] for [a <= b]: an integer [N] with
    [a <= N <= b], both ends included. *)
Definition random_randint (a b : Z) (w : world) : Z * world :=
  let (k, w') := next_draw w in (a + k mod (b - a + 1), w').

(** [random.uniform(a, b)], which is [a + (b - a) * random.random()]. *)
Definition random_uniform (a b : float) (w : world) : float * world :=
  let (r, w') := random_random w in (add a (mul (sub b a) r), w').

(** [time.time()] *)
Definition time_time (w : world) : float * world :=
  (clock w (clock_reads w),
   World (entropy w) (draws w) (clock w) (S (clock_reads w)) (uid w) (gid w)).

(** [os.getuid()] and [os.getgid()] *)
Definition os_getuid (w : world) : Z * world := (uid w, w).
Definition os_getgid (w : world) : Z * world := (gid w, w).

(** [os.W_OK], [stat.S_IFDIR] *)
Definition W_OK : Z := 2.
Definition S_IFDIR : Z := 16384.

End Host.

Import Host.

(* ===================================================================== *)
(** ** Handler results *)
(* ===================================================================== *)

Module Fuse.

Inductive errno : Type := EACCES | ENOENT.

(** The exception a handler raises. [FuseOSError EACCES] is the
    permission-denied failure, [FuseOSError ENOENT] the not-found one. *)
Inductive exn : Type := FuseOSError (e : errno).

Inductive result (A : Type) : Type :=
| Ok (a : A)
| Raise (x : exn).
Arguments Ok {A} a.
Arguments Raise {A} x.

(** A handler: it reads and advances the world and returns or raises. *)
Definition M (A : Type) : Type := world -> result A * world.

Definition ret {A} (a : A) : M A := fun w => (Ok a, w).
Definition raise {A} (x : exn) : M A := fun w => (Raise x, w).
Definition bind {A B} (c : M A) (k : A -> M B) : M B :=
  fun w =>
    match c w with
    | (Ok a, w') => k a w'
    | (Raise x, w') => (Raise x, w')
    end.

(** A call into the environment, which never raises. *)
Definition call {A} (f : world -> A * world) : M A :=
  fun w => let (a, w') := f w in (Ok a, w').

(** Python values stored in the dictionaries the handlers return. *)
Inductive value : Type :=
| Int (n : Z)
| Float (x : float).

(** A Python [dict] with string keys, in insertion order. *)
Definition dict : Type := list (string * value).

Fixpoint dict_set (k : string) (v : value) (d : dict) : dict :=
  match d with
  | [] => [(k, v)]
  | (k', v') :: d' =>
      if (k' =? k)%string then (k, v) :: d' else (k', v') :: dict_set k v d'
  end.

Definition dict_keys (d : dict) : list string := map fst d.

Fixpoint dict_get (k : string) (d : dict) : option value :=
  match d with
  | [] => None
  | (k', v) :: d' => if (k' =? k)%string then Some v else dict_get k d'
  end.

End Fuse.

Import Fuse.

Declare Scope fuse_scope.
Notation "x <- c ;; k" := (bind c (fun x => k))
  (at level 61, c at next level, right associativity) : fuse_scope.
Local Open Scope fuse_scope.

(* ===================================================================== *)
(** ** The [Exist] class *)
(* ===================================================================== *)

Module Exist.

(** [path in ('/', '/exist')] *)
Definition is_top (path : string) : bool :=
  (path =? "/")%string || (path =? "/exist")%string.

Definition _exists (path : string) : M bool :=
  if is_top path then ret true
  else if negb (slice_to 7 path =? "/exist/")%string then ret false
  else
    let filename := slice_from 7 path in
    match float_of_string filename with
    | None => ret false
    | Some probability =>
        if negb (le (of_Z 0) probability && le probability (of_Z 1))
        then ret false
        else
          rand <- call random_random ;;
          ret (le rand probability)
    end.


Definition _size : M Z := call (random_randint 0 (2 ^ 30)).

Definition _timestamp : M float :=
  now <- call time_time ;;
  call (random_uniform (of_Z 0) now).

Definition _id : M Z := call (random_randint 1 (10 ^ 5)).

Definition _gid : M Z := call os_getgid.
Definition _uid : M Z := call os_getuid.

Definition access (path : string) (mode : Z) : M unit :=
  if is_top path then ret tt
  else if negb (Z.land mode W_OK =? 0) then raise (FuseOSError EACCES)
  else
    e <- _exists path ;;
    if negb e then raise (FuseOSError EACCES) else ret tt.

(** The values of the dictionary are computed in the order they are
    written, then stored under their keys in that order. *)
Definition getattr (path : string) (fh : option Z) : M dict :=
  e <- _exists path ;;
  if negb e then raise (FuseOSError ENOENT)
  else
    let mode := Z.lor S_IFDIR 509 (* 0o775 *) in
    atime <- _timestamp ;;
    ctime <- _timestamp ;;
    mtime <- _timestamp ;;
    g <- _gid ;;
    u <- _uid ;;
    size <- _size ;;
    ret (dict_set "st_size" (Int size)
        (dict_set "st_nlink" (Int 1)
        (dict_set "st_mode" (Int mode)
        (dict_set "st_uid" (Int u)
        (dict_set "st_gid" (Int g)
        (dict_set "st_mtime" (Float mtime)
        (dict_set "st_ctime" (Float ctime)
        (dict_set "st_atime" (Float atime) [])))))))).

Definition readdir (path : string) (fh : Z) : M (list string) :=
  if (path =? "/")%string then ret ["."; ".."; "exist"]
  else
    r <- call random_random ;;
    ret ["."; ".."; float_repr r].

Definition statfs_keys : list string :=
  ["f_bavail"; "f_bfree"; "f_blocks"; "f_bsize"; "f_favail"; "f_ffree";
   "f_files"; "f_flag"; "f_frsize"; "f_namemax"].

(** [dict((key, self._size()) for key in keys)]: the pairs are produced
    one key after the other and put into the dictionary [d]. *)
Fixpoint dict_of_sizes (keys : list string) (d : dict) : M dict :=
  match keys with
  | [] => ret d
  | key :: keys' =>
      size <- _size ;;
      dict_of_sizes keys' (dict_set key (Int size) d)
  end.

Definition statfs (path : string) : M dict :=
  dict_of_sizes statfs_keys [].

End Exist.

Import Exist.

(* ===================================================================== *)
(** ** Facts about floats *)
(* ===================================================================== *)

Section Float_facts.

Lemma of_Z_0 : of_Z 0 = zero.
Proof. reflexivity. Qed.

Lemma of_Z_1 : of_Z 1 = one.
Proof. reflexivity. Qed.

Lemma digits2_pos_lower (p : positive) :
  2 ^ (Zpos (digits2_pos p) - 1) <= Zpos p.
Proof.
  induction p as [p IH | p IH |]; cbn [digits2_pos].
  - rewrite Pos2Z.inj_succ.
    replace (Z.succ (Zpos (digits2_pos p)) - 1)
      with (Z.succ (Zpos (digits2_pos p) - 1)) by lia.
    rewrite Z.pow_succ_r by lia. lia.
  - rewrite Pos2Z.inj_succ.
    replace (Z.succ (Zpos (digits2_pos p)) - 1)
      with (Z.succ (Zpos (digits2_pos p) - 1)) by lia.
    rewrite Z.pow_succ_r by lia. lia.
  - reflexivity.
Qed.

Lemma digits2_pos_le (p : positive) (n : Z) :
  Zpos p < 2 ^ n -> 0 <= n -> Zpos (digits2_pos p) <= n.
Proof.
  intros Hp Hn.
  pose proof (digits2_pos_lower p) as Hl.
  assert (Hlt : 2 ^ (Zpos (digits2_pos p) - 1) < 2 ^ n) by lia.
  apply Z.pow_lt_mono_r_iff in Hlt; lia.
Qed.

Lemma digits2_pos_shift (p n : positive) :
  digits2_pos (Pos.iter xO p n) = (digits2_pos p + n)%positive.
Proof.
  induction n as [| n IH] using Pos.peano_ind.
  - cbn. lia.
  - rewrite Pos.iter_succ. cbn [digits2_pos]. rewrite IH. lia.
Qed.

(** A positive integer below [2^53], scaled by [2^-53], is a float with
    no rounding: positive, finite, and with an exponent that puts it
    under one. *)
Lemma ldexp_unit_finite (p : positive) :
  Zpos p < 2 ^ 53 ->
  exists m, ldexp (Zpos p) (-53)
            = S754_finite false m (Zpos (digits2_pos p) - 106).
Proof.
  intros Hp.
  pose proof (digits2_pos_le p 53 Hp ltac:(lia)) as Hd.
  unfold ldexp, binary_normalize, binary_round.
  set (d := digits2_pos p) in *.
  assert (Hfexp : fexp prec emax (Zpos d + -53) = Zpos d - 106).
  { unfold fexp, emin, prec, emax. lia. }
  rewrite Hfexp.
  assert (Hal : exists mz, shl_align p (-53) (Zpos d - 106) = (mz, Zpos d - 106)
                           /\ digits2_pos mz = 53%positive).
  { unfold shl_align.
    destruct (Zpos d - 106 - -53) as [| q | q] eqn:Hq; try lia.
    - exists p. split; [f_equal; lia | fold d; lia].
    - exists (Pos.iter xO p q). split; [reflexivity |].
      rewrite digits2_pos_shift. fold d. lia. }
  destruct Hal as (mz & -> & Hmz).
  exists mz.
  unfold binary_round_aux.
  assert (Hshr : forall l, shr_fexp prec emax (Zpos mz) (Zpos d - 106) l
                 = (shr_record_of_loc (Zpos mz) l, Zpos d - 106)).
  { intros l. unfold shr_fexp. cbn [Zdigits2]. rewrite Hmz.
    replace (fexp prec emax (53 + (Zpos d - 106)) - (Zpos d - 106)) with 0
      by (unfold fexp, emin, prec, emax; lia).
    reflexivity. }
  rewrite Hshr. cbn [shr_record_of_loc loc_of_shr_record shr_m round_nearest_even].
  rewrite Hshr. cbn [shr_record_of_loc shr_m].
  replace (Zpos d - 106 <=? emax - prec) with true; [reflexivity |].
  symmetry. apply Z.leb_le. unfold emax, prec. lia.
Qed.

(** The float [k / 2^53] for [0 <= k < 2^53]: zero or a positive finite
    number with an exponent below that of one. *)
Lemma ldexp_unit_cases (k : Z) :
  0 <= k < 2 ^ 53 ->
  (k = 0 /\ ldexp k (-53) = zero)
  \/ (0 < k /\ exists m e, ldexp k (-53) = S754_finite false m e /\ e < -52).
Proof.
  intros Hk. destruct k as [| p | p]; try lia.
  - left. split; reflexivity.
  - right. split; [lia |].
    destruct (ldexp_unit_finite p) as (m & Hm); [lia |].
    pose proof (digits2_pos_le p 53 ltac:(lia) ltac:(lia)).
    exists m, (Zpos (digits2_pos p) - 106). split; [exact Hm | lia].
Qed.

(** [0 <= x < 1] in floats. *)
Definition in_unit_range (x : float) : Prop :=
  le zero x = true /\ lt x one = true.

Lemma ldexp_unit_range (k : Z) :
  0 <= k < 2 ^ 53 -> in_unit_range (ldexp k (-53)).
Proof.
  intros Hk. destruct (ldexp_unit_cases k Hk) as [(_ & ->) | (_ & m & e & -> & He)].
  - split; reflexivity.
  - split; [reflexivity |].
    unfold lt, SFltb, one. cbn [SFcompare].
    destruct (Z.compare_spec e (-52)); [lia | reflexivity | lia].
Qed.

(** Whatever is below one is at most one. *)
Lemma in_unit_range_le_one (x : float) : in_unit_range x -> le x one = true.
Proof.
  intros (_ & H). unfold lt, SFltb in H. unfold le, SFleb.
  destruct (SFcompare x one) as [[| |] |]; congruence.
Qed.

(** Of the floats in [[0, 1)] produced from [k], only the one from
    [k = 0] is at most a zero. *)
Lemma ldexp_unit_le_zero (k : Z) (s : bool) :
  0 <= k < 2 ^ 53 ->
  le (ldexp k (-53)) (S754_zero s) = true <-> ldexp k (-53) = zero.
Proof.
  intros Hk. destruct (ldexp_unit_cases k Hk) as [(_ & ->) | (_ & m & e & -> & He)].
  - split; reflexivity.
  - split; intros H; discriminate H.
Qed.

End Float_facts.

(* ===================================================================== *)
(** ** The operations the class answers *)
(* ===================================================================== *)

Module Operations.

(** The operation names the class body binds: four methods, and the
    names it sets to [None] under "Not implemented (unnecessary)". *)
Inductive operation : Type :=
| op_access | op_getattr | op_readdir | op_statfs
| op_chmod | op_chown | op_create | op_flush | op_fsync | op_getxattr
| op_link | op_listxattr | op_mkdir | op_mknod | op_open | op_read
| op_readlink | op_release | op_rename | op_rmdir | op_symlink
| op_truncate | op_unlink | op_utimens | op_write.

Inductive handler : Type :=
| Access (f : string -> Z -> M unit)
| Getattr (f : string -> option Z -> M dict)
| Readdir (f : string -> Z -> M (list string))
| Statfs (f : string -> M dict).

(** The value of the class attribute: a method, or [None]. *)
Definition attribute (op : operation) : option handler :=
  match op with
  | op_access => Some (Access access)
  | op_getattr => Some (Getattr getattr)
  | op_readdir => Some (Readdir readdir)
  | op_statfs => Some (Statfs statfs)
  | op_chmod => None
  | op_chown => None
  | op_create => None
  | op_flush => None
  | op_fsync => None
  | op_getxattr => None
  | op_link => None
  | op_listxattr => None
  | op_mkdir => None
  | op_mknod => None
  | op_open => None
  | op_read => None
  | op_readlink => None
  | op_release => None
  | op_rename => None
  | op_rmdir => None
  | op_symlink => None
  | op_truncate => None
  | op_unlink => None
  | op_utimens => None
  | op_write => None
  end.

(** What the caller of an operation gets back. *)
Inductive reply : Type :=
| Succeeded
| Attributes (d : dict)
| Listing (l : list string)
| VolumeStats (d : dict)
| Failed (x : exn)
| Unsupported.

Definition reply_of {A} (f : A -> reply) (r : result A * world) : reply * world :=
  match r with
  | (Ok a, w) => (f a, w)
  | (Raise x, w) => (Failed x, w)
  end.

(** Modelled from the spec: the host filesystem binding, which is not part
    of the repository. It routes an operation to the handler the class
    has for it, and answers an operation the class has no handler for
    with the unsupported failure, without calling into the class. *)
Definition serve (op : operation) (path : string) (mode : Z) (fh : Z)
  : world -> reply * world :=
  fun w =>
    match attribute op with
    | None => (Unsupported, w)
    | Some (Access f) => reply_of (fun _ => Succeeded) (f path mode w)
    | Some (Getattr f) => reply_of Attributes (f path (Some fh) w)
    | Some (Readdir f) => reply_of Listing (f path fh w)
    | Some (Statfs f) => reply_of VolumeStats (f path w)
    end.

(** The operations the class declares not implemented. *)
Definition not_implemented : list operation :=
  [op_create; op_write; op_read; op_open; op_truncate; op_rename; op_link;
   op_unlink; op_mkdir; op_rmdir; op_symlink; op_readlink; op_mknod;
   op_getxattr; op_listxattr; op_flush; op_fsync; op_release; op_chmod;
   op_chown; op_utimens].

End Operations.

Import Operations.

(* ===================================================================== *)
(** ** Vocabulary of the properties *)
(* ===================================================================== *)

(** The two failures of the handlers, under the names the design gives. *)
Definition PermissionDenied : exn := FuseOSError EACCES.
Definition NotFound : exn := FuseOSError ENOENT.

(** [0 <= p <= 1], the test [_exists] applies to a parsed file name. *)
Definition in_closed_unit (p : float) : bool :=
  le (of_Z 0) p && le p (of_Z 1).

(** The probability a path names, when [_exists] gets as far as rolling the
    dice for it: the guards of [_exists], in its order. *)
Definition probability_of (path : string) : option float :=
  if is_top path then None
  else if negb (slice_to 7 path =? "/exist/")%string then None
  else
    match float_of_string (slice_from 7 path) with
    | Some p => if in_closed_unit p then Some p else None
    | None => None
    end.

(** A path that [_exists] rejects after the two top paths: it does not
    start with ["/exist/"], or what follows is not a float literal, or it is
    one for which [0 <= p <= 1] is false. *)
Definition malformed (path : string) : Prop :=
  slice_to 7 path <> "/exist/"
  \/ float_of_string (slice_from 7 path) = None
  \/ (exists p, float_of_string (slice_from 7 path) = Some p
                /\ in_closed_unit p = false).

(** The keys of the dictionary [getattr] returns, in its order. *)
Definition getattr_keys : list string :=
  ["st_atime"; "st_ctime"; "st_mtime"; "st_gid"; "st_uid"; "st_mode";
   "st_nlink"; "st_size"].

(** Two sample environments: one whose random source gives [2^52] first
    and [2^52 + 1] from then on, one whose random source always gives
    [2^30]. *)
Definition world0 : world :=
  World (fun n => match n with O => 4503599627370496 | S _ => 4503599627370497 end)
        0 (fun _ => of_Z 1700000000) 0 1000 1000.

Definition world_top : world :=
  World (fun _ => 2 ^ 30) 0 (fun _ => of_Z 1700000000) 0 1000 1000.

(* ===================================================================== *)
(** ** How the handlers run *)
(* ===================================================================== *)

Section Runs.

Lemma is_top_iff (path : string) :
  is_top path = true <-> path = "/" \/ path = "/exist".
Proof.
  unfold is_top. rewrite orb_true_iff, !String.eqb_eq. reflexivity.
Qed.

Lemma is_top_false_iff (path : string) :
  is_top path = false <-> path <> "/" /\ path <> "/exist".
Proof.
  unfold is_top. rewrite orb_false_iff, !String.eqb_neq. reflexivity.
Qed.

Lemma prefix_not_top (path : string) :
  slice_to 7 path = "/exist/" -> is_top path = false.
Proof.
  intros H. apply is_top_false_iff. split; intros ->; discriminate H.
Qed.

(** One call of [random.random()]: the next value of the source, taken
    modulo [2^53] and scaled into [[0, 1)]; the source moves on by one. *)
Lemma random_random_run (w : world) :
  random_random w
  = (ldexp (entropy w (draws w) mod 2 ^ 53) (-53), snd (next_draw w)).
Proof. reflexivity. Qed.

Lemma random_random_range (w : world) : in_unit_range (fst (random_random w)).
Proof.
  rewrite random_random_run. cbn [fst].
  apply ldexp_unit_range, Z.mod_pos_bound. lia.
Qed.

Lemma next_draw_draws (w : world) : draws (snd (next_draw w)) = S (draws w).
Proof. reflexivity. Qed.

Lemma next_draw_neq (w : world) : snd (next_draw w) <> w.
Proof.
  intros H. apply (f_equal draws) in H. rewrite next_draw_draws in H. lia.
Qed.

(** [_exists] in one equation: a path that names a probability costs one
    draw and exists when the draw is at most the probability; any other
    path is answered without a draw, [True] for the two top paths and
    [False] otherwise. *)
Lemma _exists_run (path : string) (w : world) :
  _exists path w =
  match probability_of path with
  | Some p => (Ok (le (fst (random_random w)) p), snd (next_draw w))
  | None => (Ok (is_top path), w)
  end.
Proof.
  unfold _exists, probability_of, in_closed_unit.
  destruct (is_top path); [reflexivity |].
  destruct (negb (slice_to 7 path =? "/exist/")%string); [reflexivity |].
  destruct (float_of_string (slice_from 7 path)) as [p |]; [| reflexivity].
  destruct (le (of_Z 0) p && le p (of_Z 1)); reflexivity.
Qed.

Lemma probability_of_top (path : string) :
  is_top path = true -> probability_of path = None.
Proof. unfold probability_of. intros ->. reflexivity. Qed.

Lemma probability_of_entry (path : string) (p : float) :
  slice_to 7 path = "/exist/" ->
  float_of_string (slice_from 7 path) = Some p ->
  in_closed_unit p = true ->
  probability_of path = Some p.
Proof.
  intros Hpre Hparse Hp. unfold probability_of.
  rewrite (prefix_not_top path Hpre), Hpre, Hparse, Hp. reflexivity.
Qed.

Lemma probability_of_invalid (path : string) :
  malformed path -> probability_of path = None.
Proof.
  intros H. unfold probability_of.
  destruct (is_top path); [reflexivity |].
  destruct (String.eqb_spec (slice_to 7 path) "/exist/") as [Heq | Hne];
    [| reflexivity].
  cbn [negb].
  destruct H as [H | [H | (p & H & Hp)]].
  - contradiction.
  - rewrite H. reflexivity.
  - rewrite H, Hp. reflexivity.
Qed.

(** [access] in one equation. *)
Lemma access_run (path : string) (mode : Z) (w : world) :
  access path mode w =
  if is_top path then (Ok tt, w)
  else if negb (Z.land mode W_OK =? 0) then (Raise PermissionDenied, w)
  else
    match _exists path w with
    | (Ok true, w') => (Ok tt, w')
    | (Ok false, w') => (Raise PermissionDenied, w')
    | (Raise x, w') => (Raise x, w')
    end.
Proof.
  unfold access.
  destruct (is_top path); [reflexivity |].
  destruct (negb (Z.land mode W_OK =? 0)); [reflexivity |].
  unfold bind. destruct (_exists path w) as [[[|] | x] w']; reflexivity.
Qed.

Lemma mod_size_range (k : Z) : 0 <= k mod (2 ^ 30 + 1) <= 2 ^ 30.
Proof.
  pose proof (Z.mod_pos_bound k (2 ^ 30 + 1) eq_refl) as H.
  change (2 ^ 30 + 1) with (Z.succ (2 ^ 30)) in H.
  destruct H as [H1 H2]. apply Z.lt_succ_r in H2. split; assumption.
Qed.

(** One call of [_size]: within [0] and [2^30], both included. *)
Lemma _size_run (w : world) :
  _size w = (Ok (entropy w (draws w) mod (2 ^ 30 + 1)), snd (next_draw w)).
Proof. reflexivity. Qed.

Lemma _size_range (w : world) (n : Z) (w' : world) :
  _size w = (Ok n, w') -> 0 <= n <= 2 ^ 30.
Proof.
  rewrite _size_run. intros [= <- _].
  apply mod_size_range.
Qed.

(** [getattr] after the existence check: the dictionary it builds. *)
Definition attributes (atime ctime mtime : float) (g u size : Z) : dict :=
  [("st_atime", Float atime); ("st_ctime", Float ctime);
   ("st_mtime", Float mtime); ("st_gid", Int g); ("st_uid", Int u);
   ("st_mode", Int 16893); ("st_nlink", Int 1); ("st_size", Int size)].

Lemma getattr_run (path : string) (fh : option Z) (w : world) :
  match _exists path w with
  | (Ok true, w1) =>
      exists atime ctime mtime size w2,
        getattr path fh w
        = (Ok (attributes atime ctime mtime (gid w) (uid w) size), w2)
        /\ 0 <= size <= 2 ^ 30
  | (Ok false, w1) => getattr path fh w = (Raise NotFound, w1)
  | (Raise _, _) => False
  end.
Proof.
  unfold getattr, bind.
  rewrite _exists_run.
  destruct (probability_of path) as [p |].
  - destruct (le (fst (random_random w)) p); cbn [negb]; [| reflexivity].
    unfold _timestamp, _gid, _uid, bind, call, time_time, random_uniform,
      os_getgid, os_getuid.
    rewrite !random_random_run. cbn -[ldexp Z.pow Z.modulo add mul sub of_Z _size].
    rewrite _size_run.
    do 5 eexists. split; [reflexivity |].
    apply mod_size_range.
  - destruct (is_top path); cbn [negb]; [| reflexivity].
    unfold _timestamp, _gid, _uid, bind, call, time_time, random_uniform,
      os_getgid, os_getuid.
    rewrite !random_random_run. cbn -[ldexp Z.pow Z.modulo add mul sub of_Z _size].
    rewrite _size_run.
    do 5 eexists. split; [reflexivity |].
    apply mod_size_range.
Qed.

End Runs.

(* ===================================================================== *)
(** ** Dictionaries of sizes *)
(* ===================================================================== *)

Section Sizes.

(** An entry whose value is an integer from [0] to [2^30]. *)
Definition size_entry (kv : string * value) : Prop :=
  exists n, snd kv = Int n /\ 0 <= n <= 2 ^ 30.

(** The keys of a dictionary after the keys [keys] were set in turn. *)
Fixpoint keys_after (keys ks : list string) : list string :=
  match keys with
  | [] => ks
  | k :: keys' =>
      keys_after keys'
        (if existsb (fun k' => (k' =? k)%string) ks then ks else (ks ++ [k])%list)
  end.

Lemma dict_set_Forall (P : string * value -> Prop) k v d :
  Forall P d -> P (k, v) -> Forall P (dict_set k v d).
Proof.
  intros Hd Hkv. induction Hd as [| [k' v'] d' Hx Hd' IH]; cbn [dict_set].
  - constructor; [exact Hkv | constructor].
  - destruct (k' =? k)%string; constructor; assumption.
Qed.

Lemma dict_keys_set k v d :
  dict_keys (dict_set k v d)
  = if existsb (fun k' => (k' =? k)%string) (dict_keys d)
    then dict_keys d else (dict_keys d ++ [k])%list.
Proof.
  unfold dict_keys.
  induction d as [| [k' v'] d' IH]; cbn [dict_set map fst existsb app].
  - reflexivity.
  - destruct (String.eqb_spec k' k) as [-> | Hne]; cbn [orb map fst].
    + reflexivity.
    + rewrite IH.
      destruct (existsb (fun k'0 => (k'0 =? k)%string) (map fst d'));
        reflexivity.
Qed.

Lemma dict_of_sizes_run (keys : list string) :
  forall (d : dict) (w : world),
  exists d' w',
    dict_of_sizes keys d w = (Ok d', w')
    /\ (Forall size_entry d -> Forall size_entry d')
    /\ dict_keys d' = keys_after keys (dict_keys d)
    /\ draws w' = (draws w + List.length keys)%nat.
Proof.
  induction keys as [| key keys' IH]; intros d w; cbn [dict_of_sizes].
  - exists d, w. repeat split; auto.
  - unfold bind. rewrite _size_run.
    destruct (IH (dict_set key (Int (entropy w (draws w) mod (2 ^ 30 + 1))) d)
                 (snd (next_draw w))) as (d' & w' & Hrun & Hall & Hkeys & Hdraws).
    exists d', w'. split; [exact Hrun |]. split; [| split].
    + intros Hd. apply Hall, dict_set_Forall; [exact Hd |].
      eexists. split; [reflexivity | apply mod_size_range].
    + rewrite Hkeys, dict_keys_set. reflexivity.
    + rewrite Hdraws, next_draw_draws. cbn [List.length]. lia.
Qed.

End Sizes.

(* ===================================================================== *)
(** ** Properties *)
(* ===================================================================== *)

(** The value a handler returned, if it returned. *)
Definition returned {A} (r : result A * world) : option A :=
  match fst r with
  | Ok a => Some a
  | Raise _ => None
  end.

(** *** Access with write intent *)

(** C1, as stated, fails: [access] answers the two top paths before it looks
    at the mode, so a write-intent check of ["/"] succeeds. *)
Lemma access_write_root_not_denied :
  ~ (forall (path : string) (mode : Z) (w : world),
        Z.land mode W_OK <> 0 ->
        fst (access path mode w) = Raise PermissionDenied).
Proof.
  intros H. specialize (H "/" 2 world0).
  assert (Hmode : Z.land 2 W_OK <> 0) by (intros E; discriminate E).
  specialize (H Hmode). discriminate H.
Qed.

(** C1, amended: when the mode includes [W_OK], [access] fails with
    [PermissionDenied] for every path other than ["/"] and ["/exist"], and
    leaves the random source as it was; for ["/"] and ["/exist"] it
    succeeds. *)
Theorem access_write_intent (path : string) (mode : Z) (w : world) :
  Z.land mode W_OK <> 0 ->
  (path = "/" \/ path = "/exist" -> access path mode w = (Ok tt, w))
  /\ (path <> "/" -> path <> "/exist" ->
      access path mode w = (Raise PermissionDenied, w)).
Proof.
  intros Hmode. rewrite access_run. split.
  - intros Htop. apply is_top_iff in Htop. rewrite Htop. reflexivity.
  - intros H1 H2.
    rewrite (proj2 (is_top_false_iff path) (conj H1 H2)).
    apply Z.eqb_neq in Hmode. rewrite Hmode. reflexivity.
Qed.

Lemma access_write_intent_witness :
  access "/exist/0.5" 2 world0 = (Raise PermissionDenied, world0)
  /\ access "/exist" 2 world0 = (Ok tt, world0).
Proof.
  assert (Hmode : Z.land 2 W_OK <> 0) by (intros E; discriminate E).
  split.
  - apply (access_write_intent "/exist/0.5" 2 world0 Hmode);
      intros E; discriminate E.
  - apply (access_write_intent "/exist" 2 world0 Hmode). right. reflexivity.
Defined.

(** *** The size distribution *)

(** An environment whose random source gives [2^30]: the size [getattr]
    and [statfs] report is [2^30] itself. *)
Example size_runs_at_two_pow_30 :
  (match returned (getattr "/" None world_top) with
   | Some d => dict_get "st_size" d
   | None => None
   end = Some (Int (2 ^ 30)))
  /\ (match returned (statfs "/" world_top) with
      | Some d => map snd d
      | None => []
      end = repeat (Int (2 ^ 30)) 10).
Proof. split; vm_compute; reflexivity. Qed.

(** C2, as stated, fails: [random.randint(0, 2**30)] includes its upper
    end, so a size of exactly [2^30] is drawn. Neither the [st_size] of
    [getattr] nor the fields of [statfs] stay below [2^30] on every call. *)
Lemma size_draw_reaches_two_pow_30 :
  ~ (forall (path : string) (fh : option Z) (w : world),
        match returned (getattr path fh w) with
        | Some d => exists n, dict_get "st_size" d = Some (Int n)
                              /\ 0 <= n < 2 ^ 30
        | None => True
        end)
  /\ ~ (forall (path : string) (w : world),
          exists d w',
            statfs path w = (Ok d, w')
            /\ Forall (fun kv => exists n, snd kv = Int n /\ 0 <= n < 2 ^ 30) d).
Proof.
  destruct size_runs_at_two_pow_30 as [Hattr Hstat]. split.
  - intros H. specialize (H "/" None world_top).
    destruct (returned (getattr "/" None world_top)) as [d |];
      [| discriminate Hattr].
    destruct H as (n & Hn & Hlt). rewrite Hattr in Hn.
    injection Hn as <-. lia.
  - intros H. destruct (H "/" world_top) as (d & w' & Hrun & Hall).
    unfold returned in Hstat. rewrite Hrun in Hstat. cbn [fst] in Hstat.
    destruct d as [| kv d']; [discriminate Hstat |].
    apply Forall_inv in Hall. destruct Hall as (n & Hn & Hlt).
    cbn [map repeat] in Hstat. injection Hstat as Hkv _.
    rewrite Hkv in Hn. injection Hn as <-. lia.
Qed.

(** C2, amended: every draw of the size distribution lies in the closed
    range from [0] to [2^30]: the [st_size] of every dictionary [getattr]
    returns, and each of the ten fields [statfs] returns, on every call. *)
Theorem size_draws_closed_range :
  (forall (path : string) (fh : option Z) (w : world),
      match returned (getattr path fh w) with
      | Some d => exists n, dict_get "st_size" d = Some (Int n)
                            /\ 0 <= n <= 2 ^ 30
      | None => True
      end)
  /\ (forall (path : string) (w : world),
        exists d w',
          statfs path w = (Ok d, w')
          /\ dict_keys d = statfs_keys
          /\ List.length d = 10%nat
          /\ Forall size_entry d).
Proof.
  split.
  - intros path fh w. pose proof (getattr_run path fh w) as H.
    destruct (_exists path w) as [[[|] | x] w1].
    + destruct H as (atime & ctime & mtime & size & w2 & -> & Hsize).
      exists size. split; [reflexivity | exact Hsize].
    + rewrite H. exact I.
    + contradiction.
  - intros path w.
    destruct (dict_of_sizes_run statfs_keys [] w)
      as (d & w' & Hrun & Hall & Hkeys & _).
    exists d, w'. split; [exact Hrun |]. split; [exact Hkeys |].
    split; [| apply Hall; constructor].
    unfold dict_keys in Hkeys. apply (f_equal (@List.length string)) in Hkeys.
    rewrite length_map in Hkeys. exact Hkeys.
Qed.

(** *** Paths that never exist *)

(** C3: for a path other than ["/"] and ["/exist"] that does not start with
    ["/exist/"], or whose rest after that prefix is not a float literal, or
    is one outside [0 <= p <= 1], [_exists] returns [False] whatever the
    random source holds, and does not draw from it. *)
Theorem exists_invalid_false (path : string) :
  path <> "/" -> path <> "/exist" -> malformed path ->
  forall w : world, _exists path w = (Ok false, w).
Proof.
  intros H1 H2 Hbad w.
  rewrite _exists_run, (probability_of_invalid path Hbad).
  rewrite (proj2 (is_top_false_iff path) (conj H1 H2)). reflexivity.
Qed.

Lemma exists_invalid_false_witness :
  _exists "/exist/2" world0 = (Ok false, world0).
Proof.
  apply (exists_invalid_false "/exist/2").
  - intros E; discriminate E.
  - intros E; discriminate E.
  - right. right. exists (of_Z 2). split; vm_compute; reflexivity.
Defined.

(** The malformed entries the design lists, and a path outside ["/exist/"]. *)
Example exists_malformed (w : world) :
  _exists "/exist/abc" w = (Ok false, w)
  /\ _exists "/exist/-0.1" w = (Ok false, w)
  /\ _exists "/exist/nan" w = (Ok false, w)
  /\ _exists "/exist/" w = (Ok false, w)
  /\ _exists "/etc/passwd" w = (Ok false, w)
  /\ _exists "" w = (Ok false, w).
Proof.
  rewrite !_exists_run.
  repeat split; match goal with |- context [probability_of ?s] =>
    replace (probability_of s) with (@None float) by (vm_compute; reflexivity)
  end; reflexivity.
Qed.

(** *** Probability entries *)

Lemma eqb_zero (p : float) : eqb p zero = true -> exists s, p = S754_zero s.
Proof.
  destruct p as [s | s | | s m e]; cbn; try discriminate.
  - intros _. exists s. reflexivity.
  - destruct s; discriminate.
  - destruct s; discriminate.
Qed.

Lemma exists_certain (path : string) (w : world) :
  probability_of path = Some one -> fst (_exists path w) = Ok true.
Proof.
  intros Hp. rewrite _exists_run, Hp. cbn [fst].
  rewrite (in_unit_range_le_one _ (random_random_range w)). reflexivity.
Qed.

(** C4: for a path ["/exist/<p>"] with [p] a float in [0 <= p <= 1],
    [_exists] makes one call of [random.random()], which gives an [r] with
    [0 <= r < 1], and returns [r <= p]. So a [p] of one makes the path
    exist on every call, as for ["/exist/1"] and ["/exist/1.0"], and a [p]
    of zero makes it exist only when the draw is exactly [0.0]. *)
Theorem exists_probability_entry (path : string) (p : float) (w : world) :
  slice_to 7 path = "/exist/" ->
  float_of_string (slice_from 7 path) = Some p ->
  in_closed_unit p = true ->
  (exists r w',
      random_random w = (r, w')
      /\ draws w' = S (draws w)
      /\ in_unit_range r
      /\ _exists path w = (Ok (le r p), w')
      /\ (p = one -> le r p = true)
      /\ (eqb p zero = true -> (le r p = true <-> r = zero)))
  /\ (forall w0 : world,
        fst (_exists "/exist/1" w0) = Ok true
        /\ fst (_exists "/exist/1.0" w0) = Ok true).
Proof.
  intros Hpre Hparse Hp. split.
  - exists (fst (random_random w)), (snd (next_draw w)).
    pose proof (random_random_range w) as Hr.
    split; [reflexivity |]. split; [reflexivity |]. split; [exact Hr |].
    split; [| split].
    + rewrite _exists_run, (probability_of_entry path p Hpre Hparse Hp).
      reflexivity.
    + intros ->. apply in_unit_range_le_one, Hr.
    + intros Hz. destruct (eqb_zero p Hz) as (s & ->).
      rewrite random_random_run. cbn [fst].
      apply ldexp_unit_le_zero, Z.mod_pos_bound. reflexivity.
  - intros w0. split; apply exists_certain; vm_compute; reflexivity.
Qed.

Lemma exists_probability_entry_witness :
  fst (_exists "/exist/1" world0) = Ok true
  /\ draws (snd (_exists "/exist/1" world0)) = 1%nat.
Proof.
  destruct (exists_probability_entry "/exist/1" one world0)
    as ((r & w' & Hr & Hd & _ & He & Hone & _) & _).
  - reflexivity.
  - vm_compute; reflexivity.
  - vm_compute; reflexivity.
  - rewrite He, (Hone eq_refl). split; [reflexivity | exact Hd].
Defined.

(** A probability of one half: the verdict follows the draw. The first
    draw of [world0] is exactly one half, the second is just above. *)
Example exists_half :
  fst (_exists "/exist/0.5" world0) = Ok true
  /\ fst (_exists "/exist/0.5" (snd (next_draw world0))) = Ok false.
Proof. split; vm_compute; reflexivity. Qed.

(** *** The two top paths *)

(** C5: ["/"] and ["/exist"] exist on every call: [_exists] returns [True]
    without a draw, [getattr] returns a dictionary and so never fails with
    [NotFound], and [access] without write intent succeeds. *)
Theorem top_paths_always_exist
  (path : string) (fh : option Z) (mode : Z) (w : world) :
  path = "/" \/ path = "/exist" ->
  _exists path w = (Ok true, w)
  /\ (exists d w', getattr path fh w = (Ok d, w'))
  /\ fst (getattr path fh w) <> Raise NotFound
  /\ (Z.land mode W_OK = 0 -> access path mode w = (Ok tt, w)).
Proof.
  intros Htop. apply is_top_iff in Htop.
  assert (He : _exists path w = (Ok true, w)).
  { rewrite _exists_run, (probability_of_top path Htop), Htop. reflexivity. }
  pose proof (getattr_run path fh w) as Hg. rewrite He in Hg.
  destruct Hg as (atime & ctime & mtime & size & w2 & Hg & _).
  split; [exact He |]. split; [| split].
  - eexists. eexists. exact Hg.
  - rewrite Hg. intros E; discriminate E.
  - intros _. rewrite access_run, Htop. reflexivity.
Qed.

Lemma top_paths_always_exist_witness :
  _exists "/" world0 = (Ok true, world0)
  /\ access "/exist" 4 world0 = (Ok tt, world0).
Proof.
  split.
  - apply (top_paths_always_exist "/" None 4 world0). left. reflexivity.
  - apply (top_paths_always_exist "/exist" None 4 world0);
      [right |]; reflexivity.
Defined.

(** *** Directory listings *)

(** C6: [readdir] of ["/"] is the fixed listing; [readdir] of any other
    path is [".", "..", X] with [X] the text of one fresh draw of
    [random.random()], a float [r] with [0 <= r < 1]. *)
Theorem readdir_listing (path : string) (fh : Z) (w : world) :
  path <> "/" ->
  readdir "/" fh w = (Ok ["."; ".."; "exist"], w)
  /\ exists r w',
       random_random w = (r, w')
       /\ draws w' = S (draws w)
       /\ in_unit_range r
       /\ readdir path fh w = (Ok ["."; ".."; float_repr r], w').
Proof.
  intros Hpath. split; [reflexivity |].
  exists (fst (random_random w)), (snd (next_draw w)).
  split; [reflexivity |]. split; [reflexivity |].
  split; [apply random_random_range |].
  unfold readdir. apply String.eqb_neq in Hpath. rewrite Hpath. reflexivity.
Qed.

Lemma readdir_listing_witness :
  readdir "/exist" 0 world0 = (Ok ["."; ".."; "0.5"], snd (next_draw world0)).
Proof.
  destruct (readdir_listing "/exist" 0 world0) as (_ & r & w' & Hr & _ & _ & ->).
  - intros E; discriminate E.
  - replace r with (fst (random_random world0)) by (rewrite Hr; reflexivity).
    replace w' with (snd (random_random world0)) by (rewrite Hr; reflexivity).
    vm_compute. reflexivity.
Defined.

(** *** Attributes *)

(** C7: in every dictionary [getattr] returns, [st_uid] and [st_gid] are the
    user and group id of the process, [st_mode] is [S_IFDIR | 0o775] and
    [st_nlink] is [1]. *)
Theorem getattr_fixed_fields
  (path : string) (fh : option Z) (w : world) (d : dict) (w' : world) :
  getattr path fh w = (Ok d, w') ->
  dict_get "st_uid" d = Some (Int (uid w))
  /\ dict_get "st_gid" d = Some (Int (gid w))
  /\ dict_get "st_mode" d = Some (Int (Z.lor S_IFDIR 509))
  /\ Z.lor S_IFDIR 509 = 16893
  /\ dict_get "st_nlink" d = Some (Int 1).
Proof.
  intros Hrun. pose proof (getattr_run path fh w) as H.
  destruct (_exists path w) as [[[|] | x] w1].
  - destruct H as (atime & ctime & mtime & size & w2 & H & _).
    rewrite H in Hrun. injection Hrun as <- _. repeat split.
  - rewrite H in Hrun. discriminate Hrun.
  - contradiction.
Qed.

Lemma getattr_fixed_fields_witness :
  match returned (getattr "/" None world0) with
  | Some d =>
      dict_get "st_uid" d = Some (Int 1000)
      /\ dict_get "st_gid" d = Some (Int 1000)
      /\ dict_get "st_mode" d = Some (Int 16893)
      /\ dict_get "st_nlink" d = Some (Int 1)
  | None => False
  end.
Proof.
  unfold returned.
  destruct (getattr "/" None world0) as [[d | x] w'] eqn:E; cbn [fst].
  - destruct (getattr_fixed_fields "/" None world0 d w' E)
      as (Hu & Hg & Hm & _ & Hn).
    repeat split; assumption.
  - vm_compute in E. discriminate E.
Defined.

(** C8: [getattr] fails with [NotFound] exactly when its call of [_exists]
    returns [False]; when that call returns [True], [getattr] returns a
    dictionary with the eight keys [st_atime], [st_ctime], [st_mtime],
    [st_gid], [st_uid], [st_mode], [st_nlink], [st_size] and no other. *)
Theorem getattr_not_found_iff (path : string) (fh : option Z) (w : world) :
  (fst (getattr path fh w) = Raise NotFound <-> fst (_exists path w) = Ok false)
  /\ (fst (_exists path w) = Ok true ->
      exists d, fst (getattr path fh w) = Ok d
                /\ dict_keys d = getattr_keys
                /\ NoDup (dict_keys d))
  /\ (fst (_exists path w) = Ok true \/ fst (_exists path w) = Ok false).
Proof.
  pose proof (getattr_run path fh w) as H.
  destruct (_exists path w) as [[[|] | x] w1]; cbn [fst].
  - destruct H as (atime & ctime & mtime & size & w2 & -> & _). cbn [fst].
    split; [split; intros E; discriminate E |]. split; [| left; reflexivity].
    intros _. eexists. split; [reflexivity |]. split; [reflexivity |].
    cbn. repeat constructor; cbn; intuition discriminate.
  - rewrite H. cbn [fst].
    split; [split; reflexivity |]. split; [| right; reflexivity].
    intros E; discriminate E.
  - contradiction.
Qed.

(** *** Operations without a handler *)

(** C9: the class has a handler for [access], [getattr], [readdir] and
    [statfs] and for no other operation: for each of the twenty-one
    operations it sets to [None], the attribute is [None], and a call is
    answered as unsupported with the environment untouched. *)
Theorem not_implemented_unsupported :
  Forall (fun op =>
            attribute op = None
            /\ forall path mode fh w, serve op path mode fh w = (Unsupported, w))
         not_implemented
  /\ List.length not_implemented = 21%nat
  /\ (forall op, attribute op = None <-> In op not_implemented)
  /\ (forall op, attribute op <> None <->
                 In op [op_access; op_getattr; op_readdir; op_statfs]).
Proof.
  split; [| split; [reflexivity | split]].
  - unfold not_implemented. repeat constructor.
  - intros op. split.
    + destruct op; cbn; intros E; try discriminate E; tauto.
    + cbn. intros H. repeat (destruct H as [<- | H]; [reflexivity |]).
      contradiction.
  - intros op. split.
    + destruct op; cbn; intros E; try tauto; exfalso; apply E; reflexivity.
    + cbn. intros H.
      repeat (destruct H as [<- | H]; [intros E; discriminate E |]).
      contradiction.
Qed.

(** *** The random source as a frame *)

(** C10: the paths decided without randomness leave the environment, and
    with it the random source, as it was: ["/"] and ["/exist"], a malformed
    path, and an [access] with write intent. A path that names a
    probability costs [_exists] one draw, and [access] without write intent
    the same one draw; nothing else moves the source. *)
Theorem random_source_frame (path : string) (mode : Z) (w : world) :
  (path = "/" \/ path = "/exist" ->
   snd (_exists path w) = w /\ snd (access path mode w) = w)
  /\ (path <> "/" -> path <> "/exist" -> malformed path ->
      snd (_exists path w) = w /\ snd (access path mode w) = w)
  /\ (path <> "/" -> path <> "/exist" -> Z.land mode W_OK <> 0 ->
      snd (access path mode w) = w)
  /\ (forall p : float,
        slice_to 7 path = "/exist/" ->
        float_of_string (slice_from 7 path) = Some p ->
        in_closed_unit p = true ->
        snd (_exists path w) = snd (next_draw w)
        /\ draws (snd (_exists path w)) = S (draws w)
        /\ (Z.land mode W_OK = 0 ->
            snd (access path mode w) = snd (next_draw w)))
  /\ (snd (_exists path w) <> w ->
      snd (_exists path w) = snd (next_draw w)
      /\ exists p, probability_of path = Some p)
  /\ (snd (access path mode w) <> w ->
      snd (access path mode w) = snd (next_draw w)
      /\ Z.land mode W_OK = 0
      /\ exists p, probability_of path = Some p).
Proof.
  rewrite access_run, _exists_run.
  split; [| split; [| split; [| split; [| split]]]].
  - intros Htop. apply is_top_iff in Htop.
    rewrite (probability_of_top path Htop), Htop. split; reflexivity.
  - intros H1 H2 Hbad.
    rewrite (probability_of_invalid path Hbad).
    rewrite (proj2 (is_top_false_iff path) (conj H1 H2)).
    split; [reflexivity |].
    destruct (negb (Z.land mode W_OK =? 0)); reflexivity.
  - intros H1 H2 Hmode.
    rewrite (proj2 (is_top_false_iff path) (conj H1 H2)).
    apply Z.eqb_neq in Hmode. rewrite Hmode. reflexivity.
  - intros p Hpre Hparse Hp.
    rewrite (probability_of_entry path p Hpre Hparse Hp).
    rewrite (prefix_not_top path Hpre).
    split; [reflexivity |]. split; [reflexivity |].
    intros Hmode. apply Z.eqb_eq in Hmode. rewrite Hmode. cbn [negb snd].
    destruct (le (fst (random_random w)) p); reflexivity.
  - destruct (probability_of path) as [p |]; cbn [snd].
    + intros _. split; [reflexivity | exists p; reflexivity].
    + intros H. contradiction H. reflexivity.
  - destruct (is_top path); [intros H; contradiction H; reflexivity |].
    destruct (Z.land mode W_OK =? 0) eqn:Hmode; cbn [negb];
      [| intros H; contradiction H; reflexivity].
    apply Z.eqb_eq in Hmode.
    destruct (probability_of path) as [p |].
    + intros _. split; [| split; [exact Hmode | exists p; reflexivity]].
      destruct (le (fst (random_random w)) p); reflexivity.
    + intros H. contradiction H. reflexivity.
Qed.

(** The frame at work: a malformed path, a write check and a top path leave
    [world0] as it is; a probability entry moves its source by one. *)
Example random_source_frame_runs :
  snd (_exists "/exist/abc" world0) = world0
  /\ snd (access "/exist/0.5" 2 world0) = world0
  /\ snd (access "/" 4 world0) = world0
  /\ draws (snd (_exists "/exist/0.25" world0)) = 1%nat
  /\ draws (snd (access "/exist/0.25" 4 world0)) = 1%nat.
Proof.
  split; [reflexivity |]. split; [reflexivity |]. split; [reflexivity |].
  split; vm_compute; reflexivity.
Qed.

(* ===================================================================== *)
(** ** Further properties of the handlers *)
(* ===================================================================== *)

(** *** The random helpers [_mode] and [_id] *)



(** X2: [_id] takes one draw and returns an id from [1] to [100000]; it
    never returns [0], the id of the superuser. *)
Theorem id_range (w : world) :
  exists (n : Z) (w' : world),
    _id w = (Ok n, w')
    /\ draws w' = S (draws w)
    /\ 1 <= n <= 100000
    /\ n <> 0.
Proof.
  exists (1 + entropy w (draws w) mod (10 ^ 5 - 1 + 1)), (snd (next_draw w)).
  split; [reflexivity |]. split; [reflexivity |].
  assert (H : 0 <= entropy w (draws w) mod (10 ^ 5 - 1 + 1) < 10 ^ 5 - 1 + 1)
    by (apply Z.mod_pos_bound; reflexivity).
  change (10 ^ 5 - 1 + 1) with 100000 in *. lia.
Qed.

(** *** What a call costs *)

(** The environment after the attributes were drawn from [w]: four more
    draws (three timestamps and the size) and three more readings of the
    clock. *)
Definition after_attributes (w : world) : world :=
  World (entropy w) (4 + draws w) (clock w) (3 + clock_reads w) (uid w) (gid w).

Lemma getattr_env (path : string) (fh : option Z) (w : world) :
  snd (getattr path fh w) =
  match _exists path w with
  | (Ok true, w1) => after_attributes w1
  | (_, w1) => w1
  end.
Proof.
  unfold getattr, bind.
  destruct (_exists path w) as [[[|] | x] w1]; cbn [negb]; reflexivity.
Qed.

(** X3: what [getattr] costs. A call that fails with [NotFound] takes at
    most one draw, the one of the existence check, and does not read the
    clock; a call that returns takes four draws and three clock readings
    after the existence check, which itself takes one draw for a
    probability entry and none for ["/"] and ["/exist"]. Nothing else of
    the environment changes. *)
Theorem getattr_cost (path : string) (fh : option Z) (w : world) :
  let w' := snd (getattr path fh w) in
  (entropy w' = entropy w /\ clock w' = clock w
   /\ uid w' = uid w /\ gid w' = gid w)
  /\ match fst (getattr path fh w) with
     | Raise _ =>
         clock_reads w' = clock_reads w
         /\ (w' = w \/ w' = snd (next_draw w))
     | Ok _ =>
         clock_reads w' = (3 + clock_reads w)%nat
         /\ ((is_top path = true /\ draws w' = (4 + draws w)%nat)
             \/ ((exists p, probability_of path = Some p)
                 /\ draws w' = (5 + draws w)%nat))
     end.
Proof.
  cbv zeta. rewrite getattr_env.
  pose proof (getattr_run path fh w) as H. revert H.
  rewrite _exists_run.
  destruct (probability_of path) as [p |].
  - destruct (le (fst (random_random w)) p).
    + intros (atime & ctime & mtime & size & w2 & -> & _). cbn.
      repeat split. right. split; [exists p |]; reflexivity.
    + intros ->. cbn. repeat split. right. reflexivity.
  - destruct (is_top path).
    + intros (atime & ctime & mtime & size & w2 & -> & _). cbn.
      repeat split. left. split; reflexivity.
    + intros ->. cbn. repeat split. left. reflexivity.
Qed.

(** The sizes [statfs] reports for the keys, from the draw [n] on. *)
Fixpoint sizes_from (w : world) (n : nat) (keys : list string) : dict :=
  match keys with
  | [] => []
  | key :: keys' =>
      (key, Int (entropy w n mod (2 ^ 30 + 1))) :: sizes_from w (S n) keys'
  end.

(** Setting a key the dictionary does not hold adds it at the end. *)
Lemma dict_set_fresh (k : string) (v : value) (d : dict) :
  ~ In k (dict_keys d) -> dict_set k v d = (d ++ [(k, v)])%list.
Proof.
  induction d as [| [k' v'] d' IH]; cbn [dict_set dict_keys map fst In app].
  - reflexivity.
  - intros Hk.
    destruct (String.eqb_spec k' k) as [-> | Hne]; [tauto |].
    rewrite IH; [reflexivity |]. unfold dict_keys. tauto.
Qed.

Lemma sizes_from_entropy (w1 w2 : world) (keys : list string) :
  entropy w1 = entropy w2 ->
  forall n, sizes_from w1 n keys = sizes_from w2 n keys.
Proof.
  intros He. induction keys as [| key keys' IH]; intros n; cbn [sizes_from].
  - reflexivity.
  - rewrite He, IH. reflexivity.
Qed.

Lemma dict_of_sizes_fresh (keys : list string) :
  forall (d : dict) (w : world),
    NoDup keys ->
    (forall k, In k keys -> ~ In k (dict_keys d)) ->
    dict_of_sizes keys d w
    = (Ok (d ++ sizes_from w (draws w) keys)%list,
       World (entropy w) (List.length keys + draws w) (clock w)
             (clock_reads w) (uid w) (gid w)).
Proof.
  induction keys as [| key keys' IH]; intros d w Hnd Hfresh.
  - cbn [dict_of_sizes sizes_from List.length Nat.add]. unfold ret.
    rewrite app_nil_r. destruct w; reflexivity.
  - inversion Hnd as [| ? ? Hnotin Hnd']; subst.
    cbn [dict_of_sizes]. unfold bind. rewrite _size_run.
    rewrite dict_set_fresh by (apply Hfresh; left; reflexivity).
    rewrite IH.
    + cbn [next_draw snd entropy draws clock clock_reads uid gid sizes_from
           List.length].
      rewrite <- app_assoc. cbn [app].
      rewrite Nat.add_succ_r. cbn [Nat.add].
      rewrite (sizes_from_entropy _ w) by reflexivity. reflexivity.
    + exact Hnd'.
    + intros k Hk. unfold dict_keys. rewrite map_app, in_app_iff.
      cbn [map fst In]. intros [Hin | [-> | []]].
      * apply (Hfresh k); [right; exact Hk | exact Hin].
      * exact (Hnotin Hk).
Qed.

Lemma statfs_keys_NoDup : NoDup statfs_keys.
Proof.
  unfold statfs_keys.
  repeat (constructor; [cbn [In]; intuition discriminate |]).
  constructor.
Qed.

Lemma statfs_run (path : string) (w : world) :
  statfs path w
  = (Ok (sizes_from w (draws w) statfs_keys),
     World (entropy w) (10 + draws w) (clock w) (clock_reads w) (uid w) (gid w)).
Proof.
  unfold statfs.
  rewrite dict_of_sizes_fresh; [reflexivity | apply statfs_keys_NoDup |].
  intros k _ [].
Qed.

(** X4: the dictionary of sizes takes one draw per key. For keys that are
    pairwise distinct, [dict((key, self._size()) for key in keys)] holds one
    entry per key, in the order of the keys, the i-th from the i-th draw of
    the call, and the call takes as many draws as there are keys; nothing
    else of the environment changes. For [statfs] that is ten draws,
    whatever the path. *)
Theorem statfs_one_draw_per_key
    (keys : list string) (path : string) (w : world) :
  NoDup keys ->
  dict_of_sizes keys [] w
  = (Ok (sizes_from w (draws w) keys),
     World (entropy w) (List.length keys + draws w) (clock w)
           (clock_reads w) (uid w) (gid w))
  /\ (keys = statfs_keys ->
      statfs path w
      = (Ok (sizes_from w (draws w) keys),
         World (entropy w) (10 + draws w) (clock w) (clock_reads w)
               (uid w) (gid w))).
Proof.
  intros Hnd. split.
  - rewrite dict_of_sizes_fresh; [reflexivity | exact Hnd |].
    intros k _ [].
  - intros ->. apply statfs_run.
Qed.

Lemma statfs_one_draw_per_key_witness :
  dict_of_sizes statfs_keys [] world_top
  = (Ok (sizes_from world_top 0 statfs_keys),
     World (entropy world_top) 10 (clock world_top) (clock_reads world_top)
           (uid world_top) (gid world_top))
  /\ (statfs_keys = statfs_keys ->
      statfs "/" world_top
      = (Ok (sizes_from world_top 0 statfs_keys),
         World (entropy world_top) 10 (clock world_top)
               (clock_reads world_top) (uid world_top) (gid world_top))).
Proof.
  apply (statfs_one_draw_per_key statfs_keys "/" world_top).
  unfold statfs_keys.
  repeat (constructor; [cbn [In]; intuition discriminate |]).
  constructor.
Defined.

(** *** Failures *)

(** X5: the only failure of [access] is [PermissionDenied] and the only
    failure of [getattr] is [NotFound]; [readdir] and [statfs] never fail,
    not even for a path that never exists. *)
Theorem failure_kinds
  (path : string) (mode : Z) (fh : option Z) (fh' : Z) (w : world) :
  (forall x, fst (access path mode w) = Raise x -> x = PermissionDenied)
  /\ (forall x, fst (getattr path fh w) = Raise x -> x = NotFound)
  /\ (exists l, fst (readdir path fh' w) = Ok l)
  /\ (exists d, fst (statfs path w) = Ok d).
Proof.
  split; [| split; [| split]].
  - intros x. rewrite access_run, _exists_run.
    destruct (is_top path); [intros E; discriminate E |].
    destruct (negb (Z.land mode W_OK =? 0)); [intros [= <-]; reflexivity |].
    destruct (probability_of path) as [p |].
    + destruct (le (fst (random_random w)) p); cbn;
        [intros E; discriminate E | intros [= <-]; reflexivity].
    + cbn. intros [= <-]. reflexivity.
  - intros x. pose proof (getattr_run path fh w) as H.
    destruct (_exists path w) as [[[|] | y] w1].
    + destruct H as (atime & ctime & mtime & size & w2 & -> & _).
      intros E; discriminate E.
    + rewrite H. intros [= <-]. reflexivity.
    + contradiction.
  - unfold readdir. destruct (path =? "/")%string; eexists; reflexivity.
  - eexists. rewrite statfs_run. reflexivity.
Qed.

(** *** Existence across calls *)

(** X6: from the same environment, [access] without write intent and
    [getattr] reach the same verdict on a path: one returns exactly when
    the other does, since both decide by the same call of [_exists]. *)
Theorem access_getattr_agree
  (path : string) (mode : Z) (fh : option Z) (w : world) :
  Z.land mode W_OK = 0 ->
  (fst (access path mode w) = Ok tt <-> exists d, fst (getattr path fh w) = Ok d)
  /\ (fst (access path mode w) = Raise PermissionDenied
      <-> fst (getattr path fh w) = Raise NotFound).
Proof.
  intros Hmode. apply Z.eqb_eq in Hmode.
  pose proof (getattr_run path fh w) as H.
  rewrite access_run, Hmode. cbn [negb].
  destruct (is_top path) eqn:Htop.
  - rewrite _exists_run, (probability_of_top path Htop), Htop in H.
    destruct H as (atime & ctime & mtime & size & w2 & -> & _). cbn [fst].
    split; split; intros E; try discriminate E; [eexists |]; reflexivity.
  - destruct (_exists path w) as [[[|] | x] w1]; cbn [fst].
    + destruct H as (atime & ctime & mtime & size & w2 & -> & _). cbn [fst].
      split; split; intros E; try discriminate E; [eexists |]; reflexivity.
    + rewrite H. cbn [fst].
      split; split; intros E; try discriminate E; try reflexivity.
      destruct E as (d & E). discriminate E.
    + contradiction.
Qed.

Lemma access_getattr_agree_witness :
  exists d, fst (getattr "/exist/0.5" None world0) = Ok d.
Proof.
  apply (proj1 (proj1 (access_getattr_agree "/exist/0.5" 4 None world0 eq_refl))).
  vm_compute. reflexivity.
Defined.

(** X7: no verdict is kept from one call to the next. After an [access]
    that found a probability entry, the [getattr] that follows decides by
    the next draw alone: it returns when that draw is at most the
    probability and fails with [NotFound] otherwise. *)
Theorem successive_calls_redraw
  (path : string) (p : float) (mode : Z) (fh : option Z) (w : world) :
  probability_of path = Some p ->
  Z.land mode W_OK = 0 ->
  le (fst (random_random w)) p = true ->
  let w1 := snd (next_draw w) in
  let r2 := fst (random_random w1) in
  access path mode w = (Ok tt, w1)
  /\ (le r2 p = true -> exists d, fst (getattr path fh w1) = Ok d)
  /\ (le r2 p = false -> fst (getattr path fh w1) = Raise NotFound).
Proof.
  intros Hp Hmode Hr1 w1 r2.
  assert (Htop : is_top path = false).
  { destruct (is_top path) eqn:E; [| reflexivity].
    rewrite (probability_of_top path E) in Hp. discriminate Hp. }
  apply Z.eqb_eq in Hmode.
  split; [| split].
  - rewrite access_run, Htop, Hmode, _exists_run, Hp, Hr1. reflexivity.
  - intros Hr2. pose proof (getattr_run path fh w1) as H.
    rewrite _exists_run, Hp in H. fold r2 in H. rewrite Hr2 in H.
    destruct H as (atime & ctime & mtime & size & w2 & -> & _).
    eexists. reflexivity.
  - intros Hr2. pose proof (getattr_run path fh w1) as H.
    rewrite _exists_run, Hp in H. fold r2 in H. rewrite Hr2 in H.
    rewrite H. reflexivity.
Qed.

Lemma successive_calls_redraw_witness :
  access "/exist/0.5" 4 world0 = (Ok tt, snd (next_draw world0))
  /\ fst (getattr "/exist/0.5" None (snd (next_draw world0))) = Raise NotFound.
Proof.
  destruct (successive_calls_redraw "/exist/0.5"
              (S754_finite false 4503599627370496 (-53)) 4 None world0)
    as (Ha & _ & Hg).
  - vm_compute. reflexivity.
  - reflexivity.
  - vm_compute. reflexivity.
  - split; [exact Ha | apply Hg; vm_compute; reflexivity].
Defined.

(** *** The order of probabilities *)

Ltac compare_cases :=
  repeat match goal with
         | H : context [Z.compare ?a ?b] |- _ => destruct (Z.compare_spec a b)
         | |- context [Z.compare ?a ?b] => destruct (Z.compare_spec a b)
         | H : context [Pos.compare ?a ?b] |- _ => destruct (Pos.compare_spec a b)
         | |- context [Pos.compare ?a ?b] => destruct (Pos.compare_spec a b)
         end.

(** [<=] on floats is transitive. *)
Lemma le_trans (x y z : float) :
  le x y = true -> le y z = true -> le x z = true.
Proof.
  unfold le, SFleb, SFcompare.
  change (Pos.compare_cont Eq) with Pos.compare.
  destruct x as [sx | sx | | sx mx ex], y as [sy | sy | | sy my ey],
    z as [sz | sz | | sz mz ez];
    try destruct sx; try destruct sy; try destruct sz;
    try reflexivity; try discriminate;
    intros Hxy Hyz; compare_cases; subst;
    try reflexivity; try discriminate; cbn in *; try discriminate; lia.
Qed.

(** X8: existence is monotone in the probability. In the same environment,
    when an entry exists, every entry with a probability at least as large
    exists too. *)
Theorem exists_monotone (path1 path2 : string) (p q : float) (w : world) :
  probability_of path1 = Some p ->
  probability_of path2 = Some q ->
  le p q = true ->
  fst (_exists path1 w) = Ok true ->
  fst (_exists path2 w) = Ok true.
Proof.
  intros Hp Hq Hpq. rewrite !_exists_run, Hp, Hq. cbn [fst].
  destruct (le (fst (random_random w)) p) eqn:Hr;
    [| intros E; discriminate E].
  intros _. rewrite (le_trans _ p q Hr Hpq). reflexivity.
Qed.

Lemma exists_monotone_witness :
  fst (_exists "/exist/0.75" world0) = Ok true.
Proof.
  apply (exists_monotone "/exist/0.5" "/exist/0.75"
           (S754_finite false 4503599627370496 (-53))
           (S754_finite false 6755399441055744 (-53)) world0);
    vm_compute; reflexivity.
Defined.

(** *** Timestamps *)

(** Rounding in binary64, for a mantissa of more than 53 digits in the
    normal range. *)
Lemma shr_1_m (rec : shr_record) :
  0 <= shr_m rec -> shr_m (shr_1 rec) = shr_m rec / 2.
Proof.
  destruct rec as [m r s]. cbn [shr_m]. intros Hm.
  rewrite <- Z.div2_div.
  destruct m as [| [p | p |] | p]; try reflexivity; lia.
Qed.

Lemma shr_iter_m (n : positive) :
  forall rec : shr_record,
    0 <= shr_m rec ->
    shr_m (iter_pos shr_1 n rec) = shr_m rec / 2 ^ Zpos n.
Proof.
  induction n as [n IH | n IH |]; intros rec Hm; cbn [iter_pos].
  - assert (Hp : 0 < 2 ^ Zpos n) by (apply Z.pow_pos_nonneg; lia).
    assert (H1 : 0 <= shr_m (shr_1 rec)).
    { rewrite shr_1_m by exact Hm. apply Z.div_pos; lia. }
    assert (H2 : 0 <= shr_m (iter_pos shr_1 n (shr_1 rec))).
    { rewrite IH by exact H1. apply Z.div_pos; [exact H1 | lia]. }
    rewrite IH by exact H2. rewrite IH by exact H1. rewrite shr_1_m by exact Hm.
    rewrite !Z.div_div by lia. f_equal.
    replace (Zpos n~1) with (1 + Zpos n + Zpos n) by lia.
    rewrite !Z.pow_add_r by lia. change (2 ^ 1) with 2. ring.
  - assert (Hp : 0 < 2 ^ Zpos n) by (apply Z.pow_pos_nonneg; lia).
    assert (H2 : 0 <= shr_m (iter_pos shr_1 n rec)).
    { rewrite IH by exact Hm. apply Z.div_pos; [exact Hm | lia]. }
    rewrite IH by exact H2. rewrite IH by exact Hm.
    rewrite !Z.div_div by lia. f_equal.
    replace (Zpos n~0) with (Zpos n + Zpos n) by lia.
    rewrite !Z.pow_add_r by lia. reflexivity.
  - apply shr_1_m, Hm.
Qed.

Lemma round_nearest_even_bounds (m : Z) (l : location) :
  m <= round_nearest_even m l <= m + 1.
Proof.
  destruct l as [| [| |]]; cbn [round_nearest_even]; try lia.
  destruct (Z.even m); lia.
Qed.

Lemma digits2_pos_upper (p : positive) : Zpos p < 2 ^ Zpos (digits2_pos p).
Proof.
  induction p as [p IH | p IH |]; cbn [digits2_pos].
  - rewrite Pos2Z.inj_succ, Z.pow_succ_r by lia. lia.
  - rewrite Pos2Z.inj_succ, Z.pow_succ_r by lia. lia.
  - reflexivity.
Qed.

Lemma digits2_pos_unique (p : positive) (n : Z) :
  2 ^ (n - 1) <= Zpos p < 2 ^ n -> Zpos (digits2_pos p) = n.
Proof.
  intros [Hlo Hhi].
  pose proof (digits2_pos_lower p) as Hl.
  pose proof (digits2_pos_upper p) as Hu.
  assert (Hn : 0 < n).
  { destruct (Z.lt_ge_cases 0 n) as [H | H]; [exact H |].
    destruct (Z.eq_dec n 0) as [-> | Hne]; [cbn in Hhi; lia |].
    rewrite (Z.pow_neg_r 2 n) in Hhi by lia. lia. }
  assert (H1 : 2 ^ (Zpos (digits2_pos p) - 1) < 2 ^ n) by lia.
  apply Z.pow_lt_mono_r_iff in H1; [| lia | lia].
  assert (H2 : 2 ^ (n - 1) < 2 ^ Zpos (digits2_pos p)) by lia.
  apply Z.pow_lt_mono_r_iff in H2; [| lia | lia].
  lia.
Qed.

Lemma round_big (mx : positive) (ex : Z) :
  let d := Zpos (digits2_pos mx) in
  let s := d - 53 in
  let m1 := Zpos mx / 2 ^ s in
  let e1 := ex + s in
  54 <= d -> -1074 <= e1 ->
  2 ^ 52 <= m1 < 2 ^ 53
  /\ exists m2,
       m1 <= m2 <= m1 + 1
       /\ binary_round_aux prec emax false (Zpos mx) ex loc_Exact
          = if m2 <? 2 ^ 53
            then (if e1 <=? 971 then S754_finite false (Z.to_pos m2) e1
                  else S754_infinity false)
            else (if e1 + 1 <=? 971
                  then S754_finite false 4503599627370496 (e1 + 1)
                  else S754_infinity false).
Proof.
  intros d s m1 e1 Hd He1.
  pose proof (digits2_pos_lower mx) as Hlo.
  pose proof (digits2_pos_upper mx) as Hhi. fold d in Hlo, Hhi.
  assert (Hs : 0 < s) by (unfold s; lia).
  assert (Hps : 0 < 2 ^ s) by (apply Z.pow_pos_nonneg; lia).
  assert (Hm1 : 2 ^ 52 <= m1 < 2 ^ 53).
  { unfold m1. split.
    - apply Z.div_le_lower_bound; [exact Hps |].
      rewrite <- Z.pow_add_r by lia.
      replace (s + 52) with (d - 1) by (unfold s; lia). exact Hlo.
    - apply Z.div_lt_upper_bound; [exact Hps |].
      rewrite <- Z.pow_add_r by lia.
      replace (s + 53) with d by (unfold s; lia). exact Hhi. }
  split; [exact Hm1 |].
  unfold binary_round_aux.
  assert (Hshr1 : shr_fexp prec emax (Zpos mx) ex loc_Exact
                  = (iter_pos shr_1 (Z.to_pos s)
                       (Build_shr_record (Zpos mx) false false), e1)).
  { unfold shr_fexp, shr. cbn [Zdigits2 shr_record_of_loc]. fold d.
    replace (fexp prec emax (d + ex) - ex) with s
      by (unfold fexp, emin, prec, emax, s, e1 in *; lia).
    destruct s as [| ps | ps]; try lia. reflexivity. }
  rewrite Hshr1.
  set (rec1 := iter_pos shr_1 (Z.to_pos s)
                 (Build_shr_record (Zpos mx) false false)).
  assert (Hrec1 : shr_m rec1 = m1).
  { unfold rec1. rewrite shr_iter_m by (cbn; lia).
    cbn [shr_m]. rewrite Z2Pos.id by exact Hs. reflexivity. }
  pose proof (round_nearest_even_bounds (shr_m rec1) (loc_of_shr_record rec1))
    as Hb.
  set (m2 := round_nearest_even (shr_m rec1) (loc_of_shr_record rec1)) in *.
  rewrite Hrec1 in Hb.
  exists m2. split; [exact Hb |].
  destruct m2 as [| q | q] eqn:Hm2; try lia.
  destruct (Z.ltb_spec (Zpos q) (2 ^ 53)) as [Hlt | Hge].
  - assert (Hdq : Zpos (digits2_pos q) = 53)
      by (apply digits2_pos_unique; change (53 - 1) with 52; lia).
    unfold shr_fexp, shr. cbn [Zdigits2 shr_record_of_loc]. rewrite Hdq.
    replace (fexp prec emax (53 + e1) - e1) with 0
      by (unfold fexp, emin, prec, emax; lia).
    cbn [shr_m]. reflexivity.
  - assert (Hq : Zpos q = 2 ^ 53) by lia.
    assert (Hq' : q = 9007199254740992%positive) by (apply Pos2Z.inj; exact Hq).
    subst q.
    unfold shr_fexp, shr. cbn [Zdigits2 shr_record_of_loc].
    change (Zpos (digits2_pos 9007199254740992)) with 54.
    replace (fexp prec emax (54 + e1) - e1) with 1
      by (unfold fexp, emin, prec, emax; lia).
    cbn [iter_pos shr_1 shr_m].
    replace (e1 + 1 <=? emax - prec) with (e1 + 1 <=? 971) by reflexivity.
    reflexivity.
Qed.

Lemma ldexp_unit_canonical (p : positive) :
  Zpos p < 2 ^ 53 ->
  exists m, ldexp (Zpos p) (-53)
            = S754_finite false m (Zpos (digits2_pos p) - 106)
            /\ Zpos (digits2_pos m) = 53.
Proof.
  intros Hp.
  pose proof (digits2_pos_le p 53 Hp ltac:(lia)) as Hd.
  unfold ldexp, binary_normalize, binary_round.
  set (d := digits2_pos p) in *.
  replace (fexp prec emax (Zpos d + -53)) with (Zpos d - 106)
    by (unfold fexp, emin, prec, emax; lia).
  assert (Hal : exists mz, shl_align p (-53) (Zpos d - 106) = (mz, Zpos d - 106)
                           /\ digits2_pos mz = 53%positive).
  { unfold shl_align.
    destruct (Zpos d - 106 - -53) as [| q | q] eqn:Hq; try lia.
    - exists p. split; [f_equal; lia | fold d; lia].
    - exists (Pos.iter xO p q). split; [reflexivity |].
      rewrite digits2_pos_shift. fold d. lia. }
  destruct Hal as (mz & -> & Hmz).
  exists mz. split; [| rewrite Hmz; reflexivity].
  unfold binary_round_aux.
  assert (Hshr : forall l, shr_fexp prec emax (Zpos mz) (Zpos d - 106) l
                 = (shr_record_of_loc (Zpos mz) l, Zpos d - 106)).
  { intros l. unfold shr_fexp. cbn [Zdigits2]. rewrite Hmz.
    replace (fexp prec emax (53 + (Zpos d - 106)) - (Zpos d - 106)) with 0
      by (unfold fexp, emin, prec, emax; lia).
    reflexivity. }
  rewrite Hshr. cbn [shr_record_of_loc loc_of_shr_record shr_m round_nearest_even].
  rewrite Hshr. cbn [shr_record_of_loc shr_m].
  replace (Zpos d - 106 <=? emax - prec) with true; [reflexivity |].
  symmetry. apply Z.leb_le. unfold emax, prec. lia.
Qed.

(** A draw of [random.random()]: zero, or a positive float with a full
    mantissa and an exponent from [-105] to [-53]. *)
Lemma unit_float_shape (k : Z) :
  0 <= k < 2 ^ 53 ->
  ldexp k (-53) = zero
  \/ exists mr er, ldexp k (-53) = S754_finite false mr er
                   /\ Zpos (digits2_pos mr) = 53 /\ -105 <= er <= -53.
Proof.
  intros Hk. destruct k as [| p | p]; try lia.
  - left. reflexivity.
  - right. destruct (ldexp_unit_canonical p) as (m & Hm & Hd); [lia |].
    pose proof (digits2_pos_le p 53 ltac:(lia) ltac:(lia)).
    exists m, (Zpos (digits2_pos p) - 106). repeat split; try assumption; lia.
Qed.

Lemma mul_unit_le (mn : positive) (en : Z) (mr : positive) (er : Z) :
  Zpos (digits2_pos mn) = 53 -> -1021 <= en <= 971 ->
  Zpos (digits2_pos mr) = 53 -> -105 <= er <= -53 ->
  exists mf ef,
    mul (S754_finite false mn en) (S754_finite false mr er)
    = S754_finite false mf ef
    /\ (ef < en \/ (ef = en /\ Zpos mf <= Zpos mn)).
Proof.
  intros Hdn Hen Hdr Her.
  pose proof (digits2_pos_lower mn) as Hn1.
  pose proof (digits2_pos_upper mn) as Hn2.
  pose proof (digits2_pos_lower mr) as Hr1.
  pose proof (digits2_pos_upper mr) as Hr2.
  rewrite Hdn in Hn1, Hn2. rewrite Hdr in Hr1, Hr2.
  change (53 - 1) with 52 in *.
  change (2 ^ 52) with 4503599627370496 in *.
  change (2 ^ 53) with 9007199254740992 in *.
  unfold mul, SFmul. cbn [xorb].
  pose proof (digits2_pos_lower (mn * mr)) as Hp1.
  pose proof (digits2_pos_upper (mn * mr)) as Hp2.
  set (d := Zpos (digits2_pos (mn * mr))) in *.
  rewrite Pos2Z.inj_mul in Hp1, Hp2.
  assert (Hprod : 2 ^ 104 <= Zpos mn * Zpos mr < 2 ^ 106).
  { change (2 ^ 104) with (4503599627370496 * 4503599627370496).
    change (2 ^ 106) with (9007199254740992 * 9007199254740992). nia. }
  assert (Hd : d = 105 \/ d = 106).
  { assert (H1 : 2 ^ (d - 1) < 2 ^ 106) by lia.
    apply Z.pow_lt_mono_r_iff in H1; [| lia | lia].
    assert (H2 : 2 ^ 104 < 2 ^ d) by lia.
    apply Z.pow_lt_mono_r_iff in H2; [| lia | unfold d; lia].
    lia. }
  destruct (round_big (mn * mr) (en + er)) as (Hm1 & m2 & Hm2 & Hround).
  { fold d. lia. }
  { fold d. lia. }
  fold d in Hm1, Hm2, Hround.
  rewrite Hround. clear Hround.
  set (m1 := Zpos (mn * mr) / 2 ^ (d - 53)) in *.
  change (2 ^ 52) with 4503599627370496 in *.
  change (2 ^ 53) with 9007199254740992 in *.
  assert (Hcrit : d = 106 -> er = -53 -> m1 < Zpos mn).
  { intros Hd6 Her3. unfold m1. rewrite Hd6.
    change (2 ^ (106 - 53)) with 9007199254740992.
    apply Z.div_lt_upper_bound; [lia |]. rewrite Pos2Z.inj_mul. nia. }
  destruct (Z.ltb_spec m2 9007199254740992) as [Hlt | Hge].
  - replace (en + er + (d - 53) <=? 971) with true
      by (symmetry; apply Z.leb_le; lia).
    exists (Z.to_pos m2), (en + er + (d - 53)). split; [reflexivity |].
    rewrite Z2Pos.id by lia.
    destruct (Z.eq_dec (en + er + (d - 53)) en) as [Heq | Hne].
    + right. split; [exact Heq |].
      assert (d = 106 /\ er = -53) as [Hd6 Her3] by lia.
      specialize (Hcrit Hd6 Her3). lia.
    + left. lia.
  - assert (Hnc : ~ (d = 106 /\ er = -53)).
    { intros [Hd6 Her3]. specialize (Hcrit Hd6 Her3). lia. }
    replace (en + er + (d - 53) + 1 <=? 971) with true
      by (symmetry; apply Z.leb_le; lia).
    exists 4503599627370496%positive, (en + er + (d - 53) + 1).
    split; [reflexivity |].
    destruct (Z.eq_dec (en + er + (d - 53) + 1) en) as [Heq | Hne].
    + right. split; [exact Heq | lia].
    + left. lia.
Qed.

(** A clock reading at or after one second past the epoch: a positive
    binary64 number with a full mantissa. *)
Lemma clock_shape (now : float) :
  valid_binary prec emax now = true ->
  le one now = true -> lt now (S754_infinity false) = true ->
  exists mn en, now = S754_finite false mn en
                /\ Zpos (digits2_pos mn) = 53 /\ -52 <= en <= 971.
Proof.
  intros Hv H1 Hfin.
  destruct now as [s | s | | s mn en]; try discriminate.
  - destruct s; discriminate.
  - destruct s; [discriminate |].
    exists mn, en. split; [reflexivity |].
    cbn [valid_binary] in Hv. unfold bounded, canonical_mantissa in Hv.
    apply andb_true_iff in Hv as [Hc He].
    apply Z.leb_le in He. apply Z.eqb_eq in Hc.
    unfold le, SFleb, one in H1. cbn [SFcompare] in H1.
    assert (Hen : -52 <= en).
    { destruct (Z.compare_spec (-52) en); [lia | lia | discriminate]. }
    unfold fexp, emin, prec, emax in *. lia.
Qed.

Lemma le_finite (mf mn : positive) (ef en : Z) :
  ef < en \/ (ef = en /\ Zpos mf <= Zpos mn) ->
  le (S754_finite false mf ef) (S754_finite false mn en) = true.
Proof.
  intros H. unfold le, SFleb. cbn [SFcompare].
  destruct (Z.compare_spec ef en) as [Heq | Hlt | Hgt].
  - destruct H as [H | [_ H]]; [lia |].
    rewrite Pos.compare_cont_spec. cbn [Pos.switch_Eq].
    destruct (Pos.compare_spec mf mn); [reflexivity | reflexivity | lia].
  - reflexivity.
  - lia.
Qed.


(** A clock reading after the epoch: a finite binary64 number, at least
    one second. *)
Definition after_epoch (x : float) : Prop :=
  valid_binary prec emax x = true
  /\ le one x = true
  /\ lt x (S754_infinity false) = true.

(** [0 + (now - 0) * r] for a unit draw [r] stays between [0] and [now],
    both ends included, whatever the rounding. *)
Lemma uniform_epoch_range (now : float) (k : Z) :
  after_epoch now -> 0 <= k < 2 ^ 53 ->
  le zero (add (of_Z 0) (mul (sub now (of_Z 0)) (ldexp k (-53)))) = true
  /\ le (add (of_Z 0) (mul (sub now (of_Z 0)) (ldexp k (-53)))) now = true.
Proof.
  intros (Hv & H1 & Hfin) Hk.
  destruct (clock_shape _ Hv H1 Hfin) as (mn & en & Hnow & Hdn & Hen).
  rewrite Hnow, of_Z_0.
  change (sub (S754_finite false mn en) zero) with (S754_finite false mn en).
  destruct (unit_float_shape k Hk) as [Hz | (mr & er & Hr & Hdr & Her)].
  - rewrite Hz. split; reflexivity.
  - rewrite Hr.
    destruct (mul_unit_le mn en mr er Hdn ltac:(lia) Hdr Her)
      as (mf & ef & Hmul & Hcmp).
    rewrite Hmul. split; [reflexivity |].
    apply le_finite, Hcmp.
Qed.

(** X9: [_timestamp] reads the clock once and takes one draw, and its result
    lies between the epoch and the clock reading, both ends included: the
    rounding of [0 + (now - 0) * r] never leaves the interval. The clock
    reading is a finite number of at least one second. *)
Theorem timestamp_between_epoch_and_now (w : world) :
  after_epoch (clock w (clock_reads w)) ->
  exists t,
    _timestamp w
    = (Ok t, World (entropy w) (S (draws w)) (clock w) (S (clock_reads w))
                   (uid w) (gid w))
    /\ le zero t = true
    /\ le t (clock w (clock_reads w)) = true.
Proof.
  intros Hnow.
  eexists. split; [reflexivity |].
  cbn [time_time fst snd entropy draws clock clock_reads].
  apply uniform_epoch_range; [exact Hnow |].
  apply Z.mod_pos_bound. lia.
Qed.

Lemma timestamp_between_epoch_and_now_witness :
  exists t,
    _timestamp world0
    = (Ok t, World (entropy world0) 1 (clock world0) 1 1000 1000)
    /\ le zero t = true
    /\ le t (of_Z 1700000000) = true.
Proof.
  apply (timestamp_between_epoch_and_now world0).
  vm_compute. repeat split.
Defined.

(** X10: in a dictionary returned by [getattr], [st_atime], [st_ctime] and
    [st_mtime] are drawn in that order, each against a clock reading of its
    own (the first, second and third of the call), and each lies between the
    epoch and its reading. *)
Theorem getattr_timestamps_in_range
    (path : string) (fh : option Z) (w : world) (d : dict) :
  (forall n, after_epoch (clock w n)) ->
  fst (getattr path fh w) = Ok d ->
  exists atime ctime mtime,
    dict_get "st_atime" d = Some (Float atime)
    /\ dict_get "st_ctime" d = Some (Float ctime)
    /\ dict_get "st_mtime" d = Some (Float mtime)
    /\ (le zero atime = true
        /\ le atime (clock w (clock_reads w)) = true)
    /\ (le zero ctime = true
        /\ le ctime (clock w (1 + clock_reads w)) = true)
    /\ (le zero mtime = true
        /\ le mtime (clock w (2 + clock_reads w)) = true).
Proof.
  intros Hclk.
  assert (Hmod : forall k, 0 <= k mod 2 ^ 53 < 2 ^ 53)
    by (intros k; apply Z.mod_pos_bound; lia).
  unfold getattr, bind. rewrite _exists_run.
  destruct (probability_of path) as [p |].
  - destruct (le (fst (random_random w)) p); cbn [negb]; [| discriminate].
    unfold _timestamp, _gid, _uid, _size, bind, call, time_time,
      random_uniform, random_randint, os_getgid, os_getuid, ret.
    rewrite !random_random_run.
    cbn -[ldexp Z.pow Z.modulo add mul sub of_Z].
    intros [= <-]. do 3 eexists.
    repeat split; try reflexivity; apply uniform_epoch_range; auto.
  - destruct (is_top path); cbn [negb]; [| discriminate].
    unfold _timestamp, _gid, _uid, _size, bind, call, time_time,
      random_uniform, random_randint, os_getgid, os_getuid, ret.
    rewrite !random_random_run.
    cbn -[ldexp Z.pow Z.modulo add mul sub of_Z].
    intros [= <-]. do 3 eexists.
    repeat split; try reflexivity; apply uniform_epoch_range; auto.
Qed.

Lemma getattr_timestamps_in_range_witness :
  exists d,
    fst (getattr "/" None world0) = Ok d
    /\ exists atime ctime mtime,
         dict_get "st_atime" d = Some (Float atime)
         /\ dict_get "st_ctime" d = Some (Float ctime)
         /\ dict_get "st_mtime" d = Some (Float mtime)
         /\ (le zero atime = true /\ le atime (of_Z 1700000000) = true)
         /\ (le zero ctime = true /\ le ctime (of_Z 1700000000) = true)
         /\ (le zero mtime = true /\ le mtime (of_Z 1700000000) = true).
Proof.
  eexists. split; [vm_compute; reflexivity |].
  apply (getattr_timestamps_in_range "/" None world0).
  - intros n. vm_compute. repeat split.
  - vm_compute. reflexivity.
Defined.
